(** * router-bridge: the [do_introspect] script

    A shallow embedding of [router-bridge/js-src/do_introspect.ts], the
    script that the V8 runtime evaluates with four globals in scope:
    [sdl], [queries], [bridge] and [done].  The script is straight-line
    code around one host call, so it is embedded as a computation in a
    state-and-exception monad over a world that holds the state of the host
    and the trace of the calls the script has made so far. *)

From Stdlib Require Import String Ascii List Bool ZArith Lia.
Import ListNotations.
Open Scope string_scope.
Open Scope list_scope.

Set Implicit Arguments.
Set Warnings "-register-all".

(** ** JavaScript values *)

(** The values that cross the boundary.  [err] in [catch (err)] is
    untyped, so whatever the capability throws has to be representable:
    primitives, arrays, and objects as ordered key/value lists.  Numbers
    are the integral ones (line and column of a location). *)
Inductive JsValue : Type :=
| JsUndefined
| JsNull
| JsBool (b : bool)
| JsNumber (n : Z)
| JsString (s : string)
| JsArray (elements : list JsValue)
| JsObject (fields : list (string * JsValue)).

(** [ToBoolean] of ECMAScript, which [!] and [if] apply to their operand. *)
Definition ToBoolean (v : JsValue) : bool :=
  match v with
  | JsUndefined | JsNull => false
  | JsBool b => b
  | JsNumber n => negb (n =? 0)%Z
  | JsString s => negb (s =? "")
  | JsArray _ | JsObject _ => true
  end.

(** [!v] *)
Definition js_not (v : JsValue) : bool := negb (ToBoolean v).

(** Property read [o.k]: an object holds a key once, and the lookup takes
    the first binding it meets. *)
Fixpoint get_field (k : string) (fields : list (string * JsValue)) : option JsValue :=
  match fields with
  | [] => None
  | (k', v) :: rest => if k' =? k then Some v else get_field k rest
  end.

(** [OperationResult] of [./types]: an object with exactly one of the keys
    [Ok] and [Err].  The script builds it with the literals [{ Ok: _ }]
    and [{ Err: _ }] only. *)
Inductive OperationResult : Type :=
| Ok (value : JsValue)
| Err (errors : JsValue).

(** How an evaluation ends: with a value, or with a thrown value. *)
Inductive Completion (A : Type) : Type :=
| Normal (a : A)
| Throw (e : JsValue).
Arguments Normal {A} a.
Arguments Throw {A} e.

(** ** The globals of the V8 runtime *)

(** [declare var bridge: { batchIntrospect: typeof batchIntrospect }].
    The capability belongs to the host: it may keep state of its own
    (of type [H]) and it may throw. *)
Record Bridge (H : Type) : Type := {
  batchIntrospect : string -> list string -> H -> Completion JsValue * H
}.

(** What the script does to the outside, in program order. *)
Inductive Event : Type :=
| EvBatchIntrospect (sdl : string) (queries : list string)
| EvDone (operationResult : OperationResult).

Record World (H : Type) : Type := {
  host : H;
  trace : list Event
}.

(** The outcomes handed to [done], oldest first. *)
Fixpoint delivered (t : list Event) : list OperationResult :=
  match t with
  | [] => []
  | EvDone o :: t' => o :: delivered t'
  | EvBatchIntrospect _ _ :: t' => delivered t'
  end.

(** The argument pairs [bridge.batchIntrospect] was invoked on. *)
Fixpoint invocations (t : list Event) : list (string * list string) :=
  match t with
  | [] => []
  | EvBatchIntrospect s q :: t' => (s, q) :: invocations t'
  | EvDone _ :: t' => invocations t'
  end.

(** ** The script monad *)

Definition Script (H A : Type) : Type := World H -> Completion A * World H.

Definition ret {H A} (a : A) : Script H A := fun w => (Normal a, w).

(** Sequencing: a thrown value skips the rest. *)
Definition bind {H A B} (m : Script H A) (k : A -> Script H B) : Script H B :=
  fun w =>
    match m w with
    | (Normal a, w') => k a w'
    | (Throw e, w') => (Throw e, w')
    end.

(** [try { body } catch (err) { handler }] *)
Definition try_catch {H A} (body : Script H A) (handler : JsValue -> Script H A)
  : Script H A :=
  fun w =>
    match body w with
    | (Normal a, w') => (Normal a, w')
    | (Throw e, w') => handler e w'
    end.

Declare Scope script_scope.
Delimit Scope script_scope with script.
Notation "x <- m ;; k" := (bind m (fun x => k))
  (at level 61, m at next level, right associativity) : script_scope.
Notation "m ;; k" := (bind m (fun _ => k))
  (at level 61, right associativity) : script_scope.
Open Scope script_scope.

Section DoIntrospect.

Context {H : Type}.
Variable bridge : Bridge H.

(** [bridge.batchIntrospect(sdl, queries)] *)
Definition call_batchIntrospect (sdl : string) (queries : list string)
  : Script H JsValue :=
  fun w =>
    let (c, h') := batchIntrospect bridge sdl queries (host w) in
    (c, {| host := h'; trace := trace w ++ [EvBatchIntrospect sdl queries] |}).

(** [declare var done: (operationResult: OperationResult) => void]: the
    host's continuation.  It takes the outcome and returns; what the host
    does with an outcome is not the script's business, so a call is
    recorded in the trace and nothing else changes. *)
Definition done (operationResult : OperationResult) : Script H unit :=
  fun w =>
    (Normal tt, {| host := host w; trace := trace w ++ [EvDone operationResult] |}).

(** The literal [[{ message: 'Error in JS-Rust-land: SDL is empty.' }]]. *)
Definition sdl_is_empty : JsValue :=
  JsArray [JsObject [("message", JsString "Error in JS-Rust-land: SDL is empty.")]].

(** The script, statement by statement. *)
Definition do_introspect (sdl : string) (queries : list string) : Script H unit :=
  (if js_not (JsString sdl)
   then done (Err sdl_is_empty)
   else ret tt) ;;
  try_catch
    (introspected <- call_batchIntrospect sdl queries ;;
     done (Ok introspected))
    (fun err => done (Err err)).

(** One evaluation of the script in a runtime whose host is in state [h]. *)
Definition run (sdl : string) (queries : list string) (h : H)
  : Completion unit * World H :=
  do_introspect sdl queries {| host := h; trace := [] |}.

End DoIntrospect.

(** The outcome the [try] statement hands to [done] for a completion of the
    call: line 23 for a returned value, lines 25 to 27 for a thrown one. *)
Definition outcome_of (c : Completion JsValue) : OperationResult :=
  match c with
  | Normal introspected => Ok introspected
  | Throw err => Err err
  end.

(** ** Shapes of the result protocol *)

(** An [ErrorRecord] as a JavaScript value: an object whose [message] is a
    string; other keys (locations, path) are optional. *)
Definition is_error_record (v : JsValue) : bool :=
  match v with
  | JsObject fields =>
      match get_field "message" fields with
      | Some (JsString _) => true
      | _ => false
      end
  | _ => false
  end.

(** A non-empty array of error records. *)
Definition is_error_list (v : JsValue) : bool :=
  match v with
  | JsArray (r :: rs) => forallb is_error_record (r :: rs)
  | _ => false
  end.

(** Tab, line feed, vertical tab, form feed, carriage return and space. *)
Definition is_whitespace (c : ascii) : bool :=
  match nat_of_ascii c with
  | 9 | 10 | 11 | 12 | 13 | 32 => true
  | _ => false
  end.

(** A document with nothing but whitespace in it; the empty one included. *)
Fixpoint whitespace_only (s : string) : bool :=
  match s with
  | EmptyString => true
  | String c s' => is_whitespace c && whitespace_only s'
  end.

(** ** The engine behind the capability *)

(** A failure of the parser or of the evaluator: a message and optional
    location or path metadata. *)
Record ErrorRecord : Type := {
  message : string;
  metadata : list (string * JsValue)
}.

Definition js_of_ErrorRecord (e : ErrorRecord) : JsValue :=
  JsObject (("message", JsString (message e)) :: metadata e).

(** What the engine does, in order: the state the host keeps. *)
Inductive EngineEvent : Type :=
| EvParse (sdl : string)
| EvEvaluate (query : string).

Definition EngineLog : Type := list EngineEvent.

Section Engine.

(** The parser and the evaluator are the engine's two pure functions;
    the grammar of SDL and the introspection meta-schema stay abstract. *)
Variable SchemaDocument : Type.
Variable parse : string -> SchemaDocument + ErrorRecord.
Variable evaluate : SchemaDocument -> string -> JsValue + ErrorRecord.

(** Modelled from the spec: the loop of [batchIntrospect] over [queries]
    (the function is exported by [js-src/index.ts], which is not among
    the sources).  Queries are evaluated in input order against the one
    schema; the first failure is raised and the remaining queries are
    not evaluated. *)
Fixpoint evaluate_all (schema : SchemaDocument) (queries : list string)
    (log : EngineLog) : Completion (list JsValue) * EngineLog :=
  match queries with
  | [] => (Normal [], log)
  | query :: rest =>
      match evaluate schema query with
      | inr e => (Throw (JsArray [js_of_ErrorRecord e]), log ++ [EvEvaluate query])
      | inl result =>
          match evaluate_all schema rest (log ++ [EvEvaluate query]) with
          | (Normal results, log') => (Normal (result :: results), log')
          | (Throw errors, log') => (Throw errors, log')
          end
      end
  end.

(** Modelled from the spec: [batchIntrospect] of [js-src/index.ts], the
    function behind [bridge.batchIntrospect], which is not among the
    sources.  It parses the SDL once; a parse failure is raised as a
    one-record error list and no query is evaluated; otherwise the
    results of all queries are returned, in input order, or the failure
    of the first failing query is raised. *)
Definition spec_batchIntrospect (sdl : string) (queries : list string)
    (log : EngineLog) : Completion JsValue * EngineLog :=
  match parse sdl with
  | inr e => (Throw (JsArray [js_of_ErrorRecord e]), log ++ [EvParse sdl])
  | inl schema =>
      match evaluate_all schema queries (log ++ [EvParse sdl]) with
      | (Normal results, log') => (Normal (JsArray results), log')
      | (Throw errors, log') => (Throw errors, log')
      end
  end.

Definition engine : Bridge EngineLog :=
  {| batchIntrospect := spec_batchIntrospect |}.

End Engine.

(** ** Substitute capabilities *)

(** A capability that answers every query with the query itself. *)
Definition echo_bridge : Bridge unit :=
  {| batchIntrospect := fun _ queries h => (Normal (JsArray (map JsString queries)), h) |}.

(** A capability with an internal fault: it throws an [Error] object. *)
Definition internal_fault : JsValue :=
  JsObject [("name", JsString "TypeError");
            ("message", JsString "Cannot read properties of undefined")].

Definition faulty_bridge : Bridge unit :=
  {| batchIntrospect := fun _ _ h => (Throw internal_fault, h) |}.


(** A parser and an evaluator small enough to run: a document has to
    start with [type ], a query with [{ __]. *)
Definition toy_parse (sdl : string) : string + ErrorRecord :=
  if prefix "type " sdl
  then inl sdl
  else inr {| message := "Syntax Error: Unexpected token."; metadata := [] |}.

Definition toy_evaluate (schema query : string) : JsValue + ErrorRecord :=
  if prefix "{ __" query
  then inl (JsObject [("data", JsObject [("schema", JsString schema);
                                         ("query", JsString query)])])
  else inr {| message := "Cannot query field on type Query.";
              metadata := [("path", JsArray [JsString query])] |}.

Definition toy_engine : Bridge EngineLog := engine toy_parse toy_evaluate.

(** The schema and the queries of the examples. *)
Definition hello_sdl : string := "type Query { hello: String }".
Definition queryType_query : string := "{ __schema { queryType { name } } }".
Definition types_query : string := "{ __schema { types { name } } }".
Definition hello_query : string := "{ hello }".

Definition three_queries : list string :=
  [queryType_query; hello_query; types_query].

(** What [toy_evaluate] answers to [hello_query]. *)
Definition hello_failure : ErrorRecord :=
  {| message := "Cannot query field on type Query.";
     metadata := [("path", JsArray [JsString hello_query])] |}.

(** What [toy_parse] answers to a document that is no schema. *)
Definition malformed_sdl : string := "typo Query { hello: String }".

Definition syntax_error : ErrorRecord :=
  {| message := "Syntax Error: Unexpected token."; metadata := [] |}.


(** * Properties *)

(** ** The trace of one run *)

Section DoIntrospectFacts.

Context {H : Type}.
Variable bridge : Bridge H.

(** A run always ends normally, after at most one delivery by the guard,
    one invocation of the capability and one delivery of its completion. *)
Lemma run_eq (sdl : string) (queries : list string) (h : H) :
  run bridge sdl queries h =
  (Normal tt,
   {| host := snd (batchIntrospect bridge sdl queries h);
      trace :=
        (if js_not (JsString sdl) then [EvDone (Err sdl_is_empty)] else []) ++
        [EvBatchIntrospect sdl queries;
         EvDone (outcome_of (fst (batchIntrospect bridge sdl queries h)))] |}).
Proof.
  unfold run, do_introspect, bind, try_catch, call_batchIntrospect, done, ret.
  destruct (js_not (JsString sdl)); cbn [host trace app];
    destruct (batchIntrospect bridge sdl queries h) as [[introspected | err] h'];
    reflexivity.
Qed.

Lemma run_trace (sdl : string) (queries : list string) (h : H) :
  trace (snd (run bridge sdl queries h)) =
  (if js_not (JsString sdl) then [EvDone (Err sdl_is_empty)] else []) ++
  [EvBatchIntrospect sdl queries;
   EvDone (outcome_of (fst (batchIntrospect bridge sdl queries h)))].
Proof. rewrite run_eq. reflexivity. Qed.

(** The script started in a runtime that has a history only adds to it. *)
Lemma do_introspect_frame (sdl : string) (queries : list string) (w : World H) :
  do_introspect bridge sdl queries w =
  (fst (run bridge sdl queries (host w)),
   {| host := host (snd (run bridge sdl queries (host w)));
      trace := trace w ++ trace (snd (run bridge sdl queries (host w))) |}).
Proof.
  rewrite run_eq. destruct w as [h t].
  unfold do_introspect, bind, try_catch, call_batchIntrospect, done, ret.
  destruct (js_not (JsString sdl)); cbn [host trace fst snd];
    destruct (batchIntrospect bridge sdl queries h) as [[introspected | err] h'];
    cbn [host trace fst snd outcome_of]; rewrite <- ?app_assoc; reflexivity.
Qed.

Lemma delivered_app (t1 t2 : list Event) :
  delivered (t1 ++ t2) = delivered t1 ++ delivered t2.
Proof.
  induction t1 as [| [s q | o] t1 IH]; cbn; rewrite ?IH; reflexivity.
Qed.

Lemma invocations_app (t1 t2 : list Event) :
  invocations (t1 ++ t2) = invocations t1 ++ invocations t2.
Proof.
  induction t1 as [| [s q | o] t1 IH]; cbn; rewrite ?IH; reflexivity.
Qed.

(** The guard fires on the empty string and on nothing else. *)
Lemma js_not_string (sdl : string) :
  js_not (JsString sdl) = (sdl =? "").
Proof. unfold js_not, ToBoolean. apply negb_involutive. Qed.

Lemma js_not_empty : js_not (JsString "") = true.
Proof. reflexivity. Qed.

Lemma js_not_nonempty (sdl : string) :
  sdl <> "" -> js_not (JsString sdl) = false.
Proof.
  intros Hne. rewrite js_not_string. now apply String.eqb_neq.
Qed.

Lemma run_delivered (sdl : string) (queries : list string) (h : H) :
  delivered (trace (snd (run bridge sdl queries h))) =
  (if js_not (JsString sdl) then [Err sdl_is_empty] else []) ++
  [outcome_of (fst (batchIntrospect bridge sdl queries h))].
Proof.
  rewrite run_trace, delivered_app.
  destruct (js_not (JsString sdl)); reflexivity.
Qed.


End DoIntrospectFacts.

Unset Implicit Arguments.

(** ** The script over an arbitrary capability *)

Section DoIntrospectClaims.

Context {H : Type}.
Variable bridge : Bridge H.

(** C1 (amended): for every list of queries, a run with [sdl] equal to
    the empty string first delivers
    [{ Err: [{ message: 'Error in JS-Rust-land: SDL is empty.' }] }]:
    that call of [done] is the first thing the run does, so it comes
    before any invocation of the capability. *)
Theorem empty_sdl_guard_outcome (queries : list string) (h : H) :
  exists rest,
    trace (snd (run bridge "" queries h)) =
    EvDone (Err (JsArray [JsObject
      [("message", JsString "Error in JS-Rust-land: SDL is empty.")]])) :: rest.
Proof.
  rewrite run_trace, js_not_empty. cbn [app].
  eexists. reflexivity.
Qed.

(** C2: when the capability throws [e], the run still ends normally, so
    nothing escapes the script, and the last thing it does after the
    invocation is to deliver [{ Err: e }]; in particular an outcome is
    delivered. *)
Theorem capability_exception_caught
    (sdl : string) (queries : list string) (h : H) (e : JsValue) :
  fst (batchIntrospect bridge sdl queries h) = Throw e ->
  fst (run bridge sdl queries h) = Normal tt /\
  (exists before,
      trace (snd (run bridge sdl queries h)) =
      before ++ [EvBatchIntrospect sdl queries; EvDone (Err e)]) /\
  delivered (trace (snd (run bridge sdl queries h))) <> [].
Proof.
  intros Hthrow. rewrite run_delivered, run_eq. cbn [fst snd trace].
  rewrite Hthrow. cbn [outcome_of]. repeat split.
  - eexists. reflexivity.
  - destruct (js_not (JsString sdl)); discriminate.
Qed.


(** C6 (amended): of the documents that are empty or hold only
    whitespace, the guard rejects the empty one, for which the
    precondition failure is delivered before anything else is done; a
    non-empty one passes the guard, so the run consists of the
    invocation of the capability on it and the delivery of what came of
    that invocation. *)
Theorem guard_rejects_empty_only
    (sdl : string) (queries : list string) (h : H) :
  whitespace_only sdl = true ->
  if sdl =? ""
  then exists rest,
      trace (snd (run bridge sdl queries h)) = EvDone (Err sdl_is_empty) :: rest
  else trace (snd (run bridge sdl queries h)) =
       [EvBatchIntrospect sdl queries;
        EvDone (outcome_of (fst (batchIntrospect bridge sdl queries h)))].
Proof.
  intros _. rewrite run_trace, js_not_string.
  destruct (sdl =? ""); cbn [app].
  - eexists. reflexivity.
  - reflexivity.
Qed.

(** C7 (amended): the payload of every failure-branch outcome that a run
    delivers is either the guard's array, which holds one record whose
    [message] is a string, or the very value the capability threw,
    whatever its shape. *)
Theorem failure_branch_payload
    (sdl : string) (queries : list string) (h : H) (errors : JsValue) :
  In (Err errors) (delivered (trace (snd (run bridge sdl queries h)))) ->
  (sdl = "" /\ errors = sdl_is_empty /\ is_error_list errors = true) \/
  fst (batchIntrospect bridge sdl queries h) = Throw errors.
Proof.
  rewrite run_delivered, js_not_string. intros Hin.
  apply in_app_or in Hin. destruct Hin as [Hguard | Hcatch].
  - left. destruct (sdl =? "") eqn:Hempty; [| contradiction].
    apply String.eqb_eq in Hempty.
    destruct Hguard as [Heq | []]. injection Heq as <-.
    repeat split. exact Hempty.
  - right. destruct Hcatch as [Heq | []].
    destruct (fst (batchIntrospect bridge sdl queries h)) as [v | e];
      cbn [outcome_of] in Heq; [discriminate | congruence].
Qed.

(** C9: on the empty [sdl], when the capability returns [v], [done] is
    called twice in the one run: with the empty-SDL failure before the
    invocation, and with [{ Ok: v }] after it. *)
Theorem empty_sdl_done_twice (queries : list string) (h : H) (v : JsValue) :
  fst (batchIntrospect bridge "" queries h) = Normal v ->
  trace (snd (run bridge "" queries h)) =
  [EvDone (Err sdl_is_empty); EvBatchIntrospect "" queries; EvDone (Ok v)] /\
  delivered (trace (snd (run bridge "" queries h))) = [Err sdl_is_empty; Ok v].
Proof.
  intros Hret. rewrite run_delivered, run_trace, js_not_empty, Hret.
  split; reflexivity.
Qed.

(** C10: when the capability returns [v], the run ends with the
    invocation followed by the delivery of [{ Ok: v }], and no other
    success outcome is delivered: [v] reaches [done] as it is. *)
Theorem ok_passed_through
    (sdl : string) (queries : list string) (h : H) (v : JsValue) :
  fst (batchIntrospect bridge sdl queries h) = Normal v ->
  (exists before,
      trace (snd (run bridge sdl queries h)) =
      before ++ [EvBatchIntrospect sdl queries; EvDone (Ok v)]) /\
  (forall v', In (Ok v') (delivered (trace (snd (run bridge sdl queries h)))) ->
              v' = v).
Proof.
  intros Hret. rewrite run_delivered, run_trace, Hret. cbn [outcome_of].
  split.
  - eexists. reflexivity.
  - intros v' Hin. apply in_app_or in Hin. destruct Hin as [Hguard | Hlast].
    + destruct (js_not (JsString sdl)); [| contradiction].
      destruct Hguard as [Heq | []]. discriminate.
    + destruct Hlast as [Heq | []]. congruence.
Qed.

End DoIntrospectClaims.

(** ** The engine *)

Section EngineFacts.

Variable SchemaDocument : Type.
Variable parse : string -> SchemaDocument + ErrorRecord.
Variable evaluate : SchemaDocument -> string -> JsValue + ErrorRecord.

Lemma js_of_ErrorRecord_is_error_record (e : ErrorRecord) :
  is_error_record (js_of_ErrorRecord e) = true.
Proof. reflexivity. Qed.

(** A normal end of the loop: one result per query, each the evaluation
    of the query at its index, and every query evaluated once, in order. *)
Lemma evaluate_all_normal (schema : SchemaDocument) (queries : list string) :
  forall (log log' : EngineLog) (results : list JsValue),
    evaluate_all evaluate schema queries log = (Normal results, log') ->
    Forall2 (fun query result => evaluate schema query = inl result)
            queries results /\
    log' = log ++ map EvEvaluate queries.
Proof.
  induction queries as [| query rest IH]; intros log log' results Hrun;
    cbn [evaluate_all] in Hrun.
  - injection Hrun as <- <-. split; [constructor | now rewrite app_nil_r].
  - destruct (evaluate schema query) as [result | e] eqn:Hquery;
      [| discriminate].
    destruct (evaluate_all evaluate schema rest (log ++ [EvEvaluate query]))
      as [[results' | errors] log''] eqn:Hrest; [| discriminate].
    injection Hrun as <- <-.
    destruct (IH _ _ _ Hrest) as [Hall Hlog]. split.
    + constructor; assumption.
    + rewrite Hlog, <- app_assoc. reflexivity.
Qed.

(** The loop stops at the first query that fails. *)
Lemma evaluate_all_first_failure (schema : SchemaDocument) (queries : list string) :
  forall (k : nat) (query : string) (e : ErrorRecord) (log : EngineLog),
    nth_error queries k = Some query ->
    evaluate schema query = inr e ->
    (forall i q, i < k -> nth_error queries i = Some q ->
                 exists result, evaluate schema q = inl result) ->
    evaluate_all evaluate schema queries log =
    (Throw (JsArray [js_of_ErrorRecord e]),
     log ++ map EvEvaluate (firstn (S k) queries)).
Proof.
  induction queries as [| q0 rest IH]; intros k query e log Hk Hfail Hbefore.
  - destruct k; discriminate.
  - destruct k as [| k]; cbn [nth_error] in Hk.
    + injection Hk as ->. cbn [evaluate_all]. rewrite Hfail.
      reflexivity.
    + destruct (Hbefore 0 q0) as [result Hq0]; [lia | reflexivity |].
      cbn [evaluate_all]. rewrite Hq0.
      rewrite (IH k query e (log ++ [EvEvaluate q0]) Hk Hfail).
      * rewrite <- app_assoc. reflexivity.
      * intros i q Hi Hq. apply (Hbefore (S i) q); [lia | exact Hq].
Qed.

(** What the loop raises is a list of one error record. *)
Lemma evaluate_all_throw (schema : SchemaDocument) (queries : list string) :
  forall (log log' : EngineLog) (errors : JsValue),
    evaluate_all evaluate schema queries log = (Throw errors, log') ->
    exists e, errors = JsArray [js_of_ErrorRecord e].
Proof.
  induction queries as [| query rest IH]; intros log log' errors Hrun;
    cbn [evaluate_all] in Hrun; [discriminate |].
  destruct (evaluate schema query) as [result | e].
  - destruct (evaluate_all evaluate schema rest (log ++ [EvEvaluate query]))
      as [[results' | errors'] log''] eqn:Hrest; [discriminate |].
    injection Hrun as <- <-. eapply IH. exact Hrest.
  - injection Hrun as <- <-. eexists. reflexivity.
Qed.

(** The completion of the loop does not depend on what the engine has
    done before. *)
Lemma evaluate_all_completion (schema : SchemaDocument) (queries : list string) :
  forall log1 log2 : EngineLog,
    fst (evaluate_all evaluate schema queries log1) =
    fst (evaluate_all evaluate schema queries log2).
Proof.
  induction queries as [| query rest IH]; intros log1 log2;
    cbn [evaluate_all]; [reflexivity |].
  destruct (evaluate schema query) as [result | e]; [| reflexivity].
  specialize (IH (log1 ++ [EvEvaluate query]) (log2 ++ [EvEvaluate query])).
  destruct (evaluate_all evaluate schema rest (log1 ++ [EvEvaluate query]))
    as [[r1 | e1] l1];
    destruct (evaluate_all evaluate schema rest (log2 ++ [EvEvaluate query]))
      as [[r2 | e2] l2];
    cbn [fst] in *; congruence.
Qed.

Lemma spec_batchIntrospect_completion (sdl : string) (queries : list string) :
  forall log1 log2 : EngineLog,
    fst (spec_batchIntrospect parse evaluate sdl queries log1) =
    fst (spec_batchIntrospect parse evaluate sdl queries log2).
Proof.
  intros log1 log2. unfold spec_batchIntrospect.
  destruct (parse sdl) as [schema | e]; [| reflexivity].
  pose proof (evaluate_all_completion schema queries
                (log1 ++ [EvParse sdl]) (log2 ++ [EvParse sdl])) as Hsame.
  destruct (evaluate_all evaluate schema queries (log1 ++ [EvParse sdl]))
    as [[r1 | e1] l1];
    destruct (evaluate_all evaluate schema queries (log2 ++ [EvParse sdl]))
      as [[r2 | e2] l2];
    cbn [fst] in *; congruence.
Qed.

(** A normal return of the engine is the array of the results. *)
Lemma spec_batchIntrospect_normal
    (sdl : string) (queries : list string) (log : EngineLog) (v : JsValue) :
  fst (spec_batchIntrospect parse evaluate sdl queries log) = Normal v ->
  exists schema results,
    parse sdl = inl schema /\ v = JsArray results /\
    Forall2 (fun query result => evaluate schema query = inl result)
            queries results.
Proof.
  unfold spec_batchIntrospect. intros Hret.
  destruct (parse sdl) as [schema | e]; [| discriminate].
  destruct (evaluate_all evaluate schema queries (log ++ [EvParse sdl]))
    as [[results | errors] log'] eqn:Hloop; [| discriminate].
  cbn [fst] in Hret. injection Hret as <-.
  exists schema, results. repeat split.
  eapply evaluate_all_normal. exact Hloop.
Qed.

(** Whatever the engine raises is a list of one error record. *)
Lemma spec_batchIntrospect_throw
    (sdl : string) (queries : list string) (log : EngineLog) (errors : JsValue) :
  fst (spec_batchIntrospect parse evaluate sdl queries log) = Throw errors ->
  exists e, errors = JsArray [js_of_ErrorRecord e].
Proof.
  unfold spec_batchIntrospect. intros Hthrow.
  destruct (parse sdl) as [schema | e].
  - destruct (evaluate_all evaluate schema queries (log ++ [EvParse sdl]))
      as [[results | errors'] log'] eqn:Hloop; [discriminate |].
    cbn [fst] in Hthrow. injection Hthrow as <-.
    eapply evaluate_all_throw. exact Hloop.
  - cbn [fst] in Hthrow. injection Hthrow as <-. eexists. reflexivity.
Qed.

Lemma Forall2_nth_error_l {A B : Type} (R : A -> B -> Prop) (l : list A) (l' : list B) :
  Forall2 R l l' ->
  forall i a, nth_error l i = Some a ->
              exists b, nth_error l' i = Some b /\ R a b.
Proof.
  induction 1 as [| a0 b0 l l' Hab _ IH]; intros i a Hi.
  - destruct i; discriminate.
  - destruct i as [| i]; cbn [nth_error] in *.
    + injection Hi as <-. exists b0. split; [reflexivity | exact Hab].
    + apply IH. exact Hi.
Qed.

End EngineFacts.

(** ** The script over the engine *)

Section EngineClaims.

Variable SchemaDocument : Type.
Variable parse : string -> SchemaDocument + ErrorRecord.
Variable evaluate : SchemaDocument -> string -> JsValue + ErrorRecord.

Local Abbreviation bridge := (engine parse evaluate).

(** Every failure the script delivers over the engine is a non-empty
    list of error records. *)
Lemma engine_failures_are_error_lists
    (sdl : string) (queries : list string) (log : EngineLog) (errors : JsValue) :
  In (Err errors) (delivered (trace (snd (run bridge sdl queries log)))) ->
  exists record, errors = JsArray [record] /\ is_error_record record = true.
Proof.
  rewrite run_delivered. intros Hin.
  apply in_app_or in Hin. destruct Hin as [Hguard | Hcatch].
  - destruct (js_not (JsString sdl)); [| contradiction].
    destruct Hguard as [Heq | []]. injection Heq as <-.
    eexists. split; reflexivity.
  - destruct Hcatch as [Heq | []].
    destruct (fst (batchIntrospect bridge sdl queries log)) as [v | e] eqn:Hc;
      cbn [outcome_of] in Heq; [discriminate |].
    injection Heq as ->.
    apply spec_batchIntrospect_throw in Hc. destruct Hc as [e ->].
    eexists. split; reflexivity.
Qed.

(** C3: when the SDL parses, query [k] fails with [e] and the queries
    before it evaluate, every outcome of the run is a failure that holds
    error records only, the outcome delivered for the batch is
    [{ Err: [e] }], and the engine has stopped at query [k]. *)
Theorem fail_fast_aggregation
    (sdl : string) (queries : list string) (log : EngineLog)
    (schema : SchemaDocument) (k : nat) (query : string) (e : ErrorRecord) :
  parse sdl = inl schema ->
  nth_error queries k = Some query ->
  evaluate schema query = inr e ->
  (forall i q, i < k -> nth_error queries i = Some q ->
               exists result, evaluate schema q = inl result) ->
  (forall o, In o (delivered (trace (snd (run bridge sdl queries log)))) ->
             exists errors, o = Err errors /\ is_error_list errors = true) /\
  (exists before,
      trace (snd (run bridge sdl queries log)) =
      before ++ [EvBatchIntrospect sdl queries;
                 EvDone (Err (JsArray [js_of_ErrorRecord e]))]) /\
  host (snd (run bridge sdl queries log)) =
  log ++ EvParse sdl :: map EvEvaluate (firstn (S k) queries).
Proof.
  intros Hparse Hk Hfail Hbefore.
  assert (Hcall : batchIntrospect bridge sdl queries log =
                  (Throw (JsArray [js_of_ErrorRecord e]),
                   log ++ EvParse sdl :: map EvEvaluate (firstn (S k) queries))).
  { cbn [engine batchIntrospect]. unfold spec_batchIntrospect.
    rewrite Hparse.
    rewrite (evaluate_all_first_failure SchemaDocument evaluate schema queries
               k query e (log ++ [EvParse sdl]) Hk Hfail Hbefore).
    rewrite <- app_assoc. reflexivity. }
  rewrite run_delivered, run_eq. cbn [fst snd trace host].
  rewrite Hcall. cbn [fst snd outcome_of]. repeat split.
  - intros o Hin. apply in_app_or in Hin. destruct Hin as [Hguard | Hcatch].
    + destruct (js_not (JsString sdl)); [| contradiction].
      destruct Hguard as [<- | []]. eexists. split; reflexivity.
    + destruct Hcatch as [<- | []]. eexists. split; reflexivity.
  - eexists. reflexivity.
Qed.

(** C4: a success outcome of a run carries an array with one result per
    query: it is as long as [queries], and its element [i] is the
    evaluation of query [i] against the schema parsed from [sdl]. *)
Theorem index_alignment
    (sdl : string) (queries : list string) (log : EngineLog) (v : JsValue) :
  In (Ok v) (delivered (trace (snd (run bridge sdl queries log)))) ->
  exists schema results,
    parse sdl = inl schema /\
    v = JsArray results /\
    length results = length queries /\
    forall i query,
      nth_error queries i = Some query ->
      exists result,
        nth_error results i = Some result /\
        evaluate schema query = inl result.
Proof.
  rewrite run_delivered. intros Hin.
  apply in_app_or in Hin. destruct Hin as [Hguard | Hlast].
  { destruct (js_not (JsString sdl)); [| contradiction].
    destruct Hguard as [Heq | []]. discriminate. }
  destruct Hlast as [Heq | []].
  destruct (fst (batchIntrospect bridge sdl queries log)) as [v' | e'] eqn:Hc;
    cbn [outcome_of] in Heq; [| discriminate].
  injection Heq as ->.
  apply spec_batchIntrospect_normal in Hc.
  destruct Hc as (schema & results & Hparse & -> & Hall).
  exists schema, results. repeat split; try assumption.
  - symmetry. eapply Forall2_length. exact Hall.
  - intros i query Hi.
    destruct (Forall2_nth_error_l _ _ _ Hall i query Hi) as (result & Hr & He).
    exists result. split; assumption.
Qed.

(** C8: when the SDL fails to parse with [e], the engine has parsed it
    once and evaluated no query, the outcome delivered for the batch is
    [{ Err: [e] }], and every outcome of the run is a failure with a
    single error record. *)
Theorem parse_failure_short_circuits
    (sdl : string) (queries : list string) (log : EngineLog) (e : ErrorRecord) :
  parse sdl = inr e ->
  host (snd (run bridge sdl queries log)) = log ++ [EvParse sdl] /\
  (exists before,
      trace (snd (run bridge sdl queries log)) =
      before ++ [EvBatchIntrospect sdl queries;
                 EvDone (Err (JsArray [js_of_ErrorRecord e]))]) /\
  (forall o, In o (delivered (trace (snd (run bridge sdl queries log)))) ->
             exists record,
               o = Err (JsArray [record]) /\ is_error_record record = true).
Proof.
  intros Hparse.
  assert (Hcall : batchIntrospect bridge sdl queries log =
                  (Throw (JsArray [js_of_ErrorRecord e]), log ++ [EvParse sdl])).
  { cbn [engine batchIntrospect]. unfold spec_batchIntrospect.
    rewrite Hparse. reflexivity. }
  rewrite run_delivered, run_eq. cbn [fst snd trace host].
  rewrite Hcall. cbn [fst snd outcome_of]. repeat split.
  - eexists. reflexivity.
  - intros o Hin. apply in_app_or in Hin. destruct Hin as [Hguard | Hcatch].
    + destruct (js_not (JsString sdl)); [| contradiction].
      destruct Hguard as [<- | []]. eexists. split; reflexivity.
    + destruct Hcatch as [<- | []]. eexists. split; reflexivity.
Qed.

(** Over the engine the outcomes of a run are a function of [sdl] and
    [queries] alone. *)
Lemma engine_run_deterministic
    (sdl : string) (queries : list string) (log1 log2 : EngineLog) :
  delivered (trace (snd (run bridge sdl queries log1))) =
  delivered (trace (snd (run bridge sdl queries log2))).
Proof.
  rewrite !run_delivered.
  cbn [engine batchIntrospect].
  rewrite (spec_batchIntrospect_completion SchemaDocument parse evaluate
             sdl queries log1 log2).
  reflexivity.
Qed.

End EngineClaims.

(** ** The claims at concrete inputs *)

(** C1 (as stated) fails on the empty [sdl] with the echoing capability:
    the outcome the spec names is not among the delivered ones, whose
    message is another, and the capability has been invoked. *)
Lemma empty_sdl_invariant_refuted :
  ~ In (Err (JsArray [JsObject [("message", JsString "SDL is empty.")]]))
       (delivered (trace (snd (run echo_bridge "" [queryType_query] tt)))) /\
  invocations (trace (snd (run echo_bridge "" [queryType_query] tt))) <> [].
Proof.
  split.
  - cbn. intros [Heq | [Heq | []]]; discriminate.
  - cbn. discriminate.
Qed.

(** C6 (as stated) fails on a document of one space: no failure is
    delivered at all and the capability has been invoked on it. *)
Lemma whitespace_sdl_reaches_capability :
  whitespace_only " " = true /\
  (forall errors,
      ~ In (Err errors)
           (delivered (trace (snd (run echo_bridge " " [queryType_query] tt))))) /\
  invocations (trace (snd (run echo_bridge " " [queryType_query] tt))) =
  [(" ", [queryType_query])].
Proof.
  repeat split.
  cbn. intros errors [Heq | []]. discriminate.
Qed.

(** C7 (as stated) fails when the capability throws an [Error] object:
    the failure branch carries the object itself, which is no array. *)
Lemma thrown_fault_is_not_error_list :
  In (Err internal_fault)
     (delivered (trace (snd (run faulty_bridge hello_sdl [queryType_query] tt)))) /\
  is_error_list internal_fault = false.
Proof.
  split; [left |]; reflexivity.
Qed.

Lemma capability_exception_caught_witness :
  fst (batchIntrospect faulty_bridge hello_sdl [queryType_query] tt) =
  Throw internal_fault /\
  fst (run faulty_bridge hello_sdl [queryType_query] tt) = Normal tt /\
  (exists before,
      trace (snd (run faulty_bridge hello_sdl [queryType_query] tt)) =
      before ++ [EvBatchIntrospect hello_sdl [queryType_query];
                 EvDone (Err internal_fault)]) /\
  delivered (trace (snd (run faulty_bridge hello_sdl [queryType_query] tt))) <> [].
Proof.
  split; [reflexivity |].
  apply (capability_exception_caught faulty_bridge hello_sdl [queryType_query] tt
           internal_fault).
  reflexivity.
Defined.


Lemma guard_rejects_empty_only_witness :
  whitespace_only "  " = true /\
  trace (snd (run echo_bridge "  " [queryType_query] tt)) =
  [EvBatchIntrospect "  " [queryType_query];
   EvDone (outcome_of (fst (batchIntrospect echo_bridge "  " [queryType_query] tt)))].
Proof.
  split; [reflexivity |].
  exact (guard_rejects_empty_only echo_bridge "  " [queryType_query] tt eq_refl).
Defined.

Lemma failure_branch_payload_witness :
  In (Err internal_fault)
     (delivered (trace (snd (run faulty_bridge hello_sdl [queryType_query] tt)))) /\
  ((hello_sdl = "" /\ internal_fault = sdl_is_empty /\
    is_error_list internal_fault = true) \/
   fst (batchIntrospect faulty_bridge hello_sdl [queryType_query] tt) =
   Throw internal_fault).
Proof.
  split; [left; reflexivity |].
  apply (failure_branch_payload faulty_bridge hello_sdl [queryType_query] tt
           internal_fault).
  left. reflexivity.
Defined.

Lemma empty_sdl_done_twice_witness :
  fst (batchIntrospect echo_bridge "" [queryType_query] tt) =
  Normal (JsArray [JsString queryType_query]) /\
  trace (snd (run echo_bridge "" [queryType_query] tt)) =
  [EvDone (Err sdl_is_empty); EvBatchIntrospect "" [queryType_query];
   EvDone (Ok (JsArray [JsString queryType_query]))] /\
  delivered (trace (snd (run echo_bridge "" [queryType_query] tt))) =
  [Err sdl_is_empty; Ok (JsArray [JsString queryType_query])].
Proof.
  split; [reflexivity |].
  apply (empty_sdl_done_twice echo_bridge [queryType_query] tt
           (JsArray [JsString queryType_query])).
  reflexivity.
Defined.

Lemma ok_passed_through_witness :
  fst (batchIntrospect echo_bridge hello_sdl [queryType_query] tt) =
  Normal (JsArray [JsString queryType_query]) /\
  (exists before,
      trace (snd (run echo_bridge hello_sdl [queryType_query] tt)) =
      before ++ [EvBatchIntrospect hello_sdl [queryType_query];
                 EvDone (Ok (JsArray [JsString queryType_query]))]) /\
  (forall v',
      In (Ok v')
         (delivered (trace (snd (run echo_bridge hello_sdl [queryType_query] tt)))) ->
      v' = JsArray [JsString queryType_query]).
Proof.
  split; [reflexivity |].
  apply (ok_passed_through echo_bridge hello_sdl [queryType_query] tt
           (JsArray [JsString queryType_query])).
  reflexivity.
Defined.

Lemma fail_fast_aggregation_witness :
  toy_parse hello_sdl = inl hello_sdl /\
  nth_error three_queries 1 = Some hello_query /\
  toy_evaluate hello_sdl hello_query = inr hello_failure /\
  (forall i q, i < 1 -> nth_error three_queries i = Some q ->
               exists result, toy_evaluate hello_sdl q = inl result) /\
  (forall o, In o (delivered (trace (snd (run toy_engine hello_sdl three_queries [])))) ->
             exists errors, o = Err errors /\ is_error_list errors = true) /\
  (exists before,
      trace (snd (run toy_engine hello_sdl three_queries [])) =
      before ++ [EvBatchIntrospect hello_sdl three_queries;
                 EvDone (Err (JsArray [js_of_ErrorRecord hello_failure]))]) /\
  host (snd (run toy_engine hello_sdl three_queries [])) =
  [EvParse hello_sdl; EvEvaluate queryType_query; EvEvaluate hello_query].
Proof.
  assert (Hbefore : forall i q, i < 1 -> nth_error three_queries i = Some q ->
                                exists result, toy_evaluate hello_sdl q = inl result).
  { intros i q Hi Hq. destruct i as [| i]; [| lia].
    injection Hq as <-. eexists. reflexivity. }
  repeat (split; [first [reflexivity | exact Hbefore] |]).
  exact (fail_fast_aggregation string toy_parse toy_evaluate
           hello_sdl three_queries [] hello_sdl 1 hello_query hello_failure
           eq_refl eq_refl eq_refl Hbefore).
Defined.

Lemma index_alignment_witness :
  In (Ok (JsArray
            [JsObject [("data", JsObject [("schema", JsString hello_sdl);
                                          ("query", JsString queryType_query)])];
             JsObject [("data", JsObject [("schema", JsString hello_sdl);
                                          ("query", JsString types_query)])]]))
     (delivered (trace (snd (run toy_engine hello_sdl
                               [queryType_query; types_query] [])))) /\
  exists schema results,
    toy_parse hello_sdl = inl schema /\
    JsArray
      [JsObject [("data", JsObject [("schema", JsString hello_sdl);
                                    ("query", JsString queryType_query)])];
       JsObject [("data", JsObject [("schema", JsString hello_sdl);
                                    ("query", JsString types_query)])]] =
    JsArray results /\
    length results = length [queryType_query; types_query] /\
    forall i query,
      nth_error [queryType_query; types_query] i = Some query ->
      exists result,
        nth_error results i = Some result /\
        toy_evaluate schema query = inl result.
Proof.
  split; [left; reflexivity |].
  apply (index_alignment string toy_parse toy_evaluate
           hello_sdl [queryType_query; types_query] []).
  left. reflexivity.
Defined.

Lemma parse_failure_short_circuits_witness :
  toy_parse malformed_sdl = inr syntax_error /\
  host (snd (run toy_engine malformed_sdl three_queries [])) =
  [EvParse malformed_sdl] /\
  (exists before,
      trace (snd (run toy_engine malformed_sdl three_queries [])) =
      before ++ [EvBatchIntrospect malformed_sdl three_queries;
                 EvDone (Err (JsArray [js_of_ErrorRecord syntax_error]))]) /\
  (forall o,
      In o (delivered (trace (snd (run toy_engine malformed_sdl three_queries [])))) ->
      exists record,
        o = Err (JsArray [record]) /\ is_error_record record = true).
Proof.
  split; [reflexivity |].
  exact (parse_failure_short_circuits string toy_parse toy_evaluate
           malformed_sdl three_queries [] syntax_error eq_refl).
Defined.

(** ** More on the script: what a run calls, and how often *)

Section DoIntrospectCalls.

Context {H : Type}.
Variable bridge : Bridge H.

(** X1: whatever [sdl] and [queries] are and however the capability
    completes, a run ends normally, has invoked [bridge.batchIntrospect]
    exactly once, on the run's own [sdl] and [queries], and leaves the host
    in the state that one invocation left it in.  The guard does not keep
    the empty [sdl] from the capability. *)
Theorem capability_invoked_exactly_once
    (sdl : string) (queries : list string) (h : H) :
  fst (run bridge sdl queries h) = Normal tt /\
  invocations (trace (snd (run bridge sdl queries h))) = [(sdl, queries)] /\
  host (snd (run bridge sdl queries h)) =
  snd (batchIntrospect bridge sdl queries h).
Proof.
  rewrite run_eq. cbn [fst snd trace host].
  rewrite invocations_app.
  destruct (js_not (JsString sdl)); repeat split.
Qed.

(** X2: on a non-empty [sdl], whatever its content, a run is the invocation
    of the capability followed by one call of [done], with [{ Ok: v }] if
    the capability returned [v] and [{ Err: e }] if it threw [e]; nothing
    is delivered before the invocation. *)
Theorem nonempty_sdl_single_outcome
    (sdl : string) (queries : list string) (h : H) :
  sdl <> "" ->
  trace (snd (run bridge sdl queries h)) =
  [EvBatchIntrospect sdl queries;
   EvDone (match fst (batchIntrospect bridge sdl queries h) with
           | Normal v => Ok v
           | Throw e => Err e
           end)].
Proof.
  intros Hne. rewrite run_trace, (js_not_nonempty Hne). cbn [app].
  destruct (fst (batchIntrospect bridge sdl queries h)); reflexivity.
Qed.

(** X3: on the empty [sdl], when the capability throws [e], [done] is
    called twice and both outcomes are failures: the guard's before the
    invocation, [{ Err: e }] after it. *)
Theorem empty_sdl_two_failures (queries : list string) (h : H) (e : JsValue) :
  fst (batchIntrospect bridge "" queries h) = Throw e ->
  trace (snd (run bridge "" queries h)) =
  [EvDone (Err sdl_is_empty); EvBatchIntrospect "" queries; EvDone (Err e)].
Proof.
  intros Hthrow. rewrite run_trace, js_not_empty, Hthrow. reflexivity.
Qed.

(** X4: [done] is called once in a run exactly when [sdl] is not empty,
    and twice when it is: never more, never less, whatever the capability
    does. *)
Theorem done_called_once_iff_nonempty
    (sdl : string) (queries : list string) (h : H) :
  (length (delivered (trace (snd (run bridge sdl queries h)))) = 1 <-> sdl <> "") /\
  (length (delivered (trace (snd (run bridge sdl queries h)))) = 2 <-> sdl = "").
Proof.
  rewrite run_delivered, js_not_string.
  destruct (sdl =? "") eqn:Hempty; cbn [app length].
  - apply String.eqb_eq in Hempty. split; split; intros Hx;
      try discriminate; try reflexivity; try assumption.
    contradiction.
  - apply String.eqb_neq in Hempty. split; split; intros Hx;
      try discriminate; try reflexivity; try assumption.
    contradiction.
Qed.

(** X5: a run delivers the success outcome [{ Ok: v }] exactly when the
    capability returned [v]: the script makes up no success of its own
    and withholds none. *)
Theorem ok_delivered_iff_returned
    (sdl : string) (queries : list string) (h : H) (v : JsValue) :
  In (Ok v) (delivered (trace (snd (run bridge sdl queries h)))) <->
  fst (batchIntrospect bridge sdl queries h) = Normal v.
Proof.
  rewrite run_delivered. split.
  - intros Hin. apply in_app_or in Hin. destruct Hin as [Hguard | Hlast].
    + destruct (js_not (JsString sdl)); [| contradiction].
      destruct Hguard as [Heq | []]. discriminate.
    + destruct Hlast as [Heq | []].
      destruct (fst (batchIntrospect bridge sdl queries h)) as [v' | e'];
        cbn [outcome_of] in Heq; [congruence | discriminate].
  - intros Hret. rewrite Hret. apply in_or_app. right. left. reflexivity.
Qed.

(** X6: the script keeps failures well formed: when whatever the
    capability throws on this input is a non-empty array of error records,
    so is the payload of every failure outcome of the run, the guard's
    included. *)
Theorem failures_stay_error_lists
    (sdl : string) (queries : list string) (h : H) :
  (forall e, fst (batchIntrospect bridge sdl queries h) = Throw e ->
             is_error_list e = true) ->
  forall errors,
    In (Err errors) (delivered (trace (snd (run bridge sdl queries h)))) ->
    is_error_list errors = true.
Proof.
  intros Hcap errors. rewrite run_delivered. intros Hin.
  apply in_app_or in Hin. destruct Hin as [Hguard | Hcatch].
  - destruct (js_not (JsString sdl)); [| contradiction].
    destruct Hguard as [Heq | []]. injection Heq as <-. reflexivity.
  - destruct Hcatch as [Heq | []]. apply Hcap.
    destruct (fst (batchIntrospect bridge sdl queries h)) as [v | e];
      cbn [outcome_of] in Heq; [discriminate | congruence].
Qed.

End DoIntrospectCalls.

Lemma nonempty_sdl_single_outcome_witness :
  " " <> "" /\
  trace (snd (run faulty_bridge " " [queryType_query] tt)) =
  [EvBatchIntrospect " " [queryType_query]; EvDone (Err internal_fault)].
Proof.
  assert (Hne : " " <> "") by discriminate.
  split; [exact Hne |].
  exact (nonempty_sdl_single_outcome faulty_bridge " " [queryType_query] tt Hne).
Defined.

Lemma empty_sdl_two_failures_witness :
  fst (batchIntrospect faulty_bridge "" [queryType_query] tt) =
  Throw internal_fault /\
  trace (snd (run faulty_bridge "" [queryType_query] tt)) =
  [EvDone (Err sdl_is_empty); EvBatchIntrospect "" [queryType_query];
   EvDone (Err internal_fault)].
Proof.
  split; [reflexivity |].
  apply (empty_sdl_two_failures faulty_bridge [queryType_query] tt internal_fault).
  reflexivity.
Defined.

Lemma failures_stay_error_lists_witness :
  (forall e,
      fst (batchIntrospect toy_engine "" three_queries []) = Throw e ->
      is_error_list e = true) /\
  forall errors,
    In (Err errors) (delivered (trace (snd (run toy_engine "" three_queries [])))) ->
    is_error_list errors = true.
Proof.
  assert (Hcap : forall e,
             fst (batchIntrospect toy_engine "" three_queries []) = Throw e ->
             is_error_list e = true).
  { intros e Hthrow. injection Hthrow as <-. reflexivity. }
  split; [exact Hcap |].
  exact (failures_stay_error_lists toy_engine "" three_queries [] Hcap).
Defined.
